(** * inventory_system.py: a shallow embedding and its properties

    The script keeps an inventory, a Python [dict] from item names to
    integer quantities, in memory, changes it with [add_item] and
    [remove_item], queries it with [get_qty] and [check_low_items], and
    stores it as JSON with [save_data] / [load_data].

    Layout of the development:
    - [Py]: the Python values the script handles, insertion-ordered
      dictionaries, and a state-and-exception monad;
    - [Utf8], [Json]: what the script uses of text files and of the
      [json] module, after CPython's [json.encoder], [json.decoder] and
      [json.scanner];
    - [Inv]: the functions of [inventory_system.py];
    - the properties, one theorem per claim of the specification. *)

From Stdlib Require Import ZArith NArith List Bool Lia String Ascii.
From Stdlib Require Strings.Byte.
Import ListNotations.

Set Warnings "-register-all".
Local Open Scope Z_scope.

(* ================================================================== *)
(** ** Python values, dictionaries, effects *)
(* ================================================================== *)

Module Py.

(** A Python [str] is a sequence of Unicode code points. *)
Definition codepoint := N.
Definition str := list codepoint.

(** Program text constants are written as Rocq strings. *)
Definition u (s : string) : str := map N_of_ascii (list_ascii_of_string s).

Fixpoint str_eqb (a b : str) : bool :=
  match a, b with
  | [], [] => true
  | x :: a', y :: b' => N.eqb x y && str_eqb a' b'
  | _, _ => false
  end.

(** The values that reach the script: the arguments a caller may pass
    and everything [json.load] can produce.  A float is carried as the
    literal it was read from; its rounding to binary64 plays no part
    in what follows. *)
Inductive pyval :=
| PyNone
| PyBool (b : bool)
| PyInt (z : Z)
| PyFloat (literal : str)
| PyStr (s : str)
| PyList (items : list pyval)
| PyDict (items : list (str * pyval)).

(** [isinstance(v, str)] *)
Definition isinstance_str (v : pyval) : bool :=
  match v with PyStr _ => true | _ => false end.

(** [isinstance(v, int)]: [bool] is a subclass of [int]. *)
Definition isinstance_int (v : pyval) : bool :=
  match v with PyInt _ | PyBool _ => true | _ => false end.

(** Truth value of a [str], as [not s] tests it: the empty string is
    false. *)
Definition str_truthy (s : str) : bool :=
  match s with [] => false | _ :: _ => true end.

(** The integer an instance of [int] stands for ([True] is 1). *)
Definition int_value (v : pyval) : Z :=
  match v with
  | PyInt z => z
  | PyBool true => 1
  | _ => 0
  end.

(** The text of an instance of [str]. *)
Definition str_value (v : pyval) : str :=
  match v with PyStr s => s | _ => [] end.

(** *** Exceptions and results *)

Inductive exn :=
| KeyError
| FileNotFoundError
| IsADirectoryError
| UnicodeDecodeError
| UnicodeEncodeError
| JSONDecodeError.


Inductive res (A : Type) :=
| Ok (a : A)
| Raise (e : exn).
Arguments Ok {A} a.
Arguments Raise {A} e.

(** *** A state-and-exception monad

    A computation runs on a state [S] and either returns or raises;
    what it did to the state before raising stays done, as with
    Python objects mutated in place. *)

Definition M (S A : Type) := S -> res A * S.

Definition ret {S A} (a : A) : M S A := fun s => (Ok a, s).

Definition bind {S A B} (c : M S A) (k : A -> M S B) : M S B :=
  fun s =>
    match c s with
    | (Ok a, s') => k a s'
    | (Raise e, s') => (Raise e, s')
    end.

Definition raise {S A} (e : exn) : M S A := fun s => (Raise e, s).

(** [try: c  except <those e with handles e = true>: h] *)
Definition try_except {S A} (c : M S A) (handles : exn -> bool)
           (h : exn -> M S A) : M S A :=
  fun s =>
    match c s with
    | (Ok a, s') => (Ok a, s')
    | (Raise e, s') => if handles e then h e s' else (Raise e, s')
    end.

Definition is_KeyError (e : exn) : bool :=
  match e with KeyError => true | _ => false end.
Definition is_FileNotFoundError (e : exn) : bool :=
  match e with FileNotFoundError => true | _ => false end.
Definition is_JSONDecodeError (e : exn) : bool :=
  match e with JSONDecodeError => true | _ => false end.

(** *** Dictionaries

    A [dict] keeps its entries in insertion order, one entry per key:
    an association list whose keys are distinct. *)

Section Dict.
Context {V : Type}.

Definition dict := list (str * V).

Definition keys (d : dict) : list str := map fst d.

Definition wf_dict (d : dict) : Prop := NoDup (keys d).

Fixpoint lookup (d : dict) (k : str) : option V :=
  match d with
  | [] => None
  | (k', v) :: d' => if str_eqb k' k then Some v else lookup d' k
  end.

(** [d.get(k, default)] *)
Definition dict_get (d : dict) (k : str) (default : V) : V :=
  match lookup d k with Some v => v | None => default end.

(** [d[k] = v] on the entries: an existing key keeps its place, a
    new key goes last. *)
Fixpoint store (d : dict) (k : str) (v : V) : dict :=
  match d with
  | [] => [(k, v)]
  | (k', v') :: d' =>
      if str_eqb k' k then (k', v) :: d' else (k', v') :: store d' k v
  end.

Fixpoint erase (d : dict) (k : str) : dict :=
  match d with
  | [] => []
  | (k', v') :: d' =>
      if str_eqb k' k then d' else (k', v') :: erase d' k
  end.

(** [d[k]], read *)
Definition getitem (k : str) : M dict V :=
  fun d =>
    match lookup d k with
    | Some v => (Ok v, d)
    | None => (Raise KeyError, d)
    end.

(** [d[k] = v] *)
Definition setitem (k : str) (v : V) : M dict unit :=
  fun d => (Ok tt, store d k v).

(** [del d[k]] *)
Definition delitem (k : str) : M dict unit :=
  fun d =>
    match lookup d k with
    | Some _ => (Ok tt, erase d k)
    | None => (Raise KeyError, d)
    end.

(** [dict(pairs)]: later pairs overwrite earlier ones. *)
Definition dict_of_pairs (pairs : list (str * V)) : dict :=
  fold_left (fun d kv => store d (fst kv) (snd kv)) pairs [].
End Dict.
Arguments dict V : clear implicits.

End Py.

Import Py.

Declare Scope py_scope.
Delimit Scope py_scope with py.
Notation "x <- c ;; k" := (bind c (fun x => k))
  (at level 61, c at next level, right associativity) : py_scope.
Notation "c ;;; k" := (bind c (fun _ => k))
  (at level 61, right associativity) : py_scope.

(* ================================================================== *)
(** ** Text files: UTF-8 and newline translation *)
(* ================================================================== *)

Module Utf8.

Local Open Scope N_scope.

Definition byte_of (n : N) : Byte.byte :=
  match Byte.of_N n with Some b => b | None => Byte.x00 end.



Definition in_range (lo hi b : N) : bool := (lo <=? b) && (b <=? hi).

(** Payload of a continuation byte. *)
Definition low6 (b : N) : N := N.land b 0x3F.

Definition push (c : codepoint) (r : option str) : option str :=
  match r with Some s => Some (c :: s) | None => None end.

(** Strict decoding: no overlong forms, no surrogates, nothing past
    U+10FFFF, no truncated sequence. *)
Fixpoint decode (bs : list Byte.byte) : option str :=
  match bs with
  | [] => Some []
  | x0 :: r0 =>
      let b0 := Byte.to_N x0 in
      if b0 <? 0x80 then push b0 (decode r0)
      else if in_range 0xC2 0xDF b0 then
        match r0 with
        | x1 :: r1 =>
            let b1 := Byte.to_N x1 in
            if in_range 0x80 0xBF b1
            then push (N.lor (N.shiftl (N.land b0 0x1F) 6) (low6 b1))
                      (decode r1)
            else None
        | _ => None
        end
      else if in_range 0xE0 0xEF b0 then
        match r0 with
        | x1 :: x2 :: r2 =>
            let b1 := Byte.to_N x1 in
            let b2 := Byte.to_N x2 in
            let lo := if b0 =? 0xE0 then 0xA0 else 0x80 in
            let hi := if b0 =? 0xED then 0x9F else 0xBF in
            if in_range lo hi b1 && in_range 0x80 0xBF b2
            then push (N.lor (N.shiftl (N.land b0 0x0F) 12)
                             (N.lor (N.shiftl (low6 b1) 6) (low6 b2)))
                      (decode r2)
            else None
        | _ => None
        end
      else if in_range 0xF0 0xF4 b0 then
        match r0 with
        | x1 :: x2 :: x3 :: r3 =>
            let b1 := Byte.to_N x1 in
            let b2 := Byte.to_N x2 in
            let b3 := Byte.to_N x3 in
            let lo := if b0 =? 0xF0 then 0x90 else 0x80 in
            let hi := if b0 =? 0xF4 then 0x8F else 0xBF in
            if in_range lo hi b1 && in_range 0x80 0xBF b2
               && in_range 0x80 0xBF b3
            then push (N.lor (N.shiftl (N.land b0 0x07) 18)
                             (N.lor (N.shiftl (low6 b1) 12)
                                    (N.lor (N.shiftl (low6 b2) 6) (low6 b3))))
                      (decode r3)
            else None
        | _ => None
        end
      else None
  end.

(** Reading in text mode with the default [newline=None]: CR LF and a
    lone CR arrive as LF. *)
Fixpoint universal_newlines (s : str) : str :=
  match s with
  | [] => []
  | c :: s' =>
      if c =? 13 then
        match s' with
        | d :: s'' =>
            if d =? 10 then 10 :: universal_newlines s''
            else 10 :: universal_newlines s'
        | [] => [10]
        end
      else c :: universal_newlines s'
  end.

End Utf8.

(* ================================================================== *)
(** ** The [json] module, as far as the script uses it *)
(* ================================================================== *)

Module Json.

Local Open Scope N_scope.

(** *** Encoding: [json.dump(obj, fp, indent=4)] on a dictionary from
    [str] to [int], with the defaults [ensure_ascii=True] and
    separators [(',', ': ')]. *)











(** *** Decoding: [json.load] with the default decoder. *)

Definition is_ws (c : codepoint) : bool :=
  (c =? 32) || (c =? 9) || (c =? 10) || (c =? 13).

Fixpoint skip_ws (s : str) : str :=
  match s with
  | c :: s' => if is_ws c then skip_ws s' else s
  | [] => []
  end.

Fixpoint strip_prefix (p s : str) : option str :=
  match p, s with
  | [], _ => Some s
  | a :: p', b :: s' => if a =? b then strip_prefix p' s' else None
  | _ :: _, [] => None
  end.

Definition is_digit (c : codepoint) : bool := (48 <=? c) && (c <=? 57).

Definition hex_value (c : codepoint) : option N :=
  if is_digit c then Some (c - 48)
  else if (97 <=? c) && (c <=? 102) then Some (c - 87)
  else if (65 <=? c) && (c <=? 70) then Some (c - 55)
  else None.

(** [_decode_uXXXX] on the four characters after [\u]. *)
Definition decode_uXXXX (a b c d : codepoint) : option N :=
  match hex_value a, hex_value b, hex_value c, hex_value d with
  | Some x3, Some x2, Some x1, Some x0 =>
      Some (((x3 * 16 + x2) * 16 + x1) * 16 + x0)
  | _, _, _, _ => None
  end.

(** The table [BACKSLASH] of one-letter escapes. *)
Definition backslash (esc : codepoint) : option codepoint :=
  if esc =? 34 then Some 34
  else if esc =? 92 then Some 92
  else if esc =? 47 then Some 47
  else if esc =? 98 then Some 8
  else if esc =? 102 then Some 12
  else if esc =? 110 then Some 10
  else if esc =? 114 then Some 13
  else if esc =? 116 then Some 9
  else None.

Definition is_high_surrogate (n : N) : bool := (0xD800 <=? n) && (n <=? 0xDBFF).
Definition is_low_surrogate (n : N) : bool := (0xDC00 <=? n) && (n <=? 0xDFFF).

Definition join_surrogates (hi lo : N) : codepoint :=
  0x10000 + N.lor (N.shiftl (hi - 0xD800) 10) (lo - 0xDC00).

Definition emit (c : codepoint) (r : option (str * str)) : option (str * str) :=
  match r with Some (t, rest) => Some (c :: t, rest) | None => None end.

(** [scanstring] in strict mode, from just after the opening quote:
    the string's text and what follows its closing quote.  [None] is a
    [JSONDecodeError]. *)
Fixpoint scanstring (s : str) : option (str * str) :=
  match s with
  | [] => None
  | c :: s1 =>
      if c =? 34 then Some ([], s1)
      else if c =? 92 then
        match s1 with
        | [] => None
        | esc :: s2 =>
            if esc =? 117 then
              match s2 with
              | h1 :: h2 :: h3 :: h4 :: s3 =>
                  match decode_uXXXX h1 h2 h3 h4 with
                  | None => None
                  | Some uni =>
                      if is_high_surrogate uni then
                        match s3 with
                        | b :: v :: s4 =>
                            if (b =? 92) && (v =? 117) then
                              match s4 with
                              | g1 :: g2 :: g3 :: g4 :: s5 =>
                                  match decode_uXXXX g1 g2 g3 g4 with
                                  | None => None
                                  | Some uni2 =>
                                      if is_low_surrogate uni2
                                      then emit (join_surrogates uni uni2)
                                                (scanstring s5)
                                      else emit uni (scanstring s3)
                                  end
                              | _ => None
                              end
                            else emit uni (scanstring s3)
                        | _ => emit uni (scanstring s3)
                        end
                      else emit uni (scanstring s3)
                  end
              | _ => None
              end
            else
              match backslash esc with
              | Some ch => emit ch (scanstring s2)
              | None => None
              end
        end
      else if c <? 32 then None
      else emit c (scanstring s1)
  end.

Fixpoint span_digits (s : str) : str * str :=
  match s with
  | c :: s' =>
      if is_digit c
      then let '(ds, r) := span_digits s' in (c :: ds, r)
      else ([], s)
  | [] => ([], [])
  end.

(** The first group of [NUMBER_RE]: an optional minus sign, then
    either 0 or a nonzero digit and any number of digits. *)
Definition match_integer (s : str) : option (str * str) :=
  let '(sign, s1) :=
    match s with
    | c :: s' => if c =? 45 then ([45], s') else ([], s)
    | [] => ([], s)
    end in
  match s1 with
  | c :: s2 =>
      if c =? 48 then Some (sign ++ [48], s2)
      else if is_digit c
      then let '(ds, r) := span_digits s2 in Some (sign ++ c :: ds, r)
      else None
  | [] => None
  end.

(** The second group: a dot and one or more digits, if present. *)
Definition match_frac (s : str) : str * str :=
  match s with
  | c :: s' =>
      if c =? 46 then
        match span_digits s' with
        | ([], _) => ([], s)
        | (ds, r) => (46 :: ds, r)
        end
      else ([], s)
  | [] => ([], s)
  end.

(** The third group: e or E, an optional sign, one or more digits,
    if present. *)
Definition match_exp (s : str) : str * str :=
  match s with
  | c :: s' =>
      if (c =? 101) || (c =? 69) then
        let '(sign, s'') :=
          match s' with
          | d :: t => if (d =? 45) || (d =? 43) then ([d], t) else ([], s')
          | [] => ([], s')
          end in
        match span_digits s'' with
        | ([], _) => ([], s)
        | (ds, r) => (c :: sign ++ ds, r)
        end
      else ([], s)
  | [] => ([], s)
  end.

(** The groups of [NUMBER_RE] matched at the head of [s], and the rest. *)
Definition match_number (s : str) : option (str * str * str * str) :=
  match match_integer s with
  | None => None
  | Some (integer, r) =>
      let '(frac, r1) := match_frac r in
      let '(exp, r2) := match_exp r1 in
      Some (integer, frac, exp, r2)
  end.

Definition digits_value (ds : str) : N :=
  fold_left (fun acc c => 10 * acc + (c - 48)) ds 0.

(** [int(text)] on an optional minus sign and decimal digits. *)
Definition int_of_text (t : str) : Z :=
  match t with
  | c :: ds => if c =? 45 then (- Z.of_N (digits_value ds))%Z
               else Z.of_N (digits_value t)
  | [] => 0%Z
  end.

(** [scan_once], with the loops of [JSONArray] and [JSONObject].
    [array_loop] starts at a value; [object_loop] starts just after the
    opening quote of a key.  [fuel] bounds the depth of the calls: a
    level of nesting takes two units and a turn of a loop one, and each
    takes at least one character, so twice the length of the text is
    always enough. *)
Fixpoint scan_once (fuel : nat) (s : str) : option (pyval * str) :=
  match fuel with
  | O => None
  | S fuel' =>
      match s with
      | [] => None
      | c :: s1 =>
          if c =? 34 then
            match scanstring s1 with
            | Some (t, r) => Some (PyStr t, r)
            | None => None
            end
          else if c =? 123 then
            match skip_ws s1 with
            | d :: s2 =>
                if d =? 125 then Some (PyDict [], s2)
                else if d =? 34 then
                  match object_loop fuel' s2 with
                  | Some (pairs, r) => Some (PyDict (dict_of_pairs pairs), r)
                  | None => None
                  end
                else None
            | [] => None
            end
          else if c =? 91 then
            match skip_ws s1 with
            | d :: s2 =>
                if d =? 93 then Some (PyList [], s2)
                else
                  match array_loop fuel' (d :: s2) with
                  | Some (values, r) => Some (PyList values, r)
                  | None => None
                  end
            | [] => None
            end
          else
            match strip_prefix (u "null") s,
                  strip_prefix (u "true") s,
                  strip_prefix (u "false") s with
            | Some r, _, _ => Some (PyNone, r)
            | _, Some r, _ => Some (PyBool true, r)
            | _, _, Some r => Some (PyBool false, r)
            | None, None, None =>
                match match_number s with
                | Some (integer, frac, exp, r) =>
                    match frac, exp with
                    | [], [] => Some (PyInt (int_of_text integer), r)
                    | _, _ => Some (PyFloat (integer ++ frac ++ exp), r)
                    end
                | None =>
                    match strip_prefix (u "NaN") s,
                          strip_prefix (u "Infinity") s,
                          strip_prefix (u "-Infinity") s with
                    | Some r, _, _ => Some (PyFloat (u "NaN"), r)
                    | _, Some r, _ => Some (PyFloat (u "Infinity"), r)
                    | _, _, Some r => Some (PyFloat (u "-Infinity"), r)
                    | None, None, None => None
                    end
                end
            end
      end
  end
with array_loop (fuel : nat) (s : str) : option (list pyval * str) :=
  match fuel with
  | O => None
  | S fuel' =>
      match scan_once fuel' s with
      | None => None
      | Some (value, r) =>
          match skip_ws r with
          | c :: r1 =>
              if c =? 93 then Some ([value], r1)
              else if c =? 44 then
                match array_loop fuel' (skip_ws r1) with
                | Some (values, r2) => Some (value :: values, r2)
                | None => None
                end
              else None
          | [] => None
          end
      end
  end
with object_loop (fuel : nat) (s : str) : option (list (str * pyval) * str) :=
  match fuel with
  | O => None
  | S fuel' =>
      match scanstring s with
      | None => None
      | Some (key, r) =>
          match skip_ws r with
          | c :: r1 =>
              if c =? 58 then
                match scan_once fuel' (skip_ws r1) with
                | None => None
                | Some (value, r2) =>
                    match skip_ws r2 with
                    | d :: r3 =>
                        if d =? 125 then Some ([(key, value)], r3)
                        else if d =? 44 then
                          match skip_ws r3 with
                          | q :: r4 =>
                              if q =? 34 then
                                match object_loop fuel' r4 with
                                | Some (pairs, r5) =>
                                    Some ((key, value) :: pairs, r5)
                                | None => None
                                end
                              else None
                          | [] => None
                          end
                        else None
                    | [] => None
                    end
                end
              else None
          | [] => None
          end
      end
  end.

(** [json.loads(s)]: a leading BOM is refused, then one value between
    optional whitespace, and nothing after it. *)
Definition loads (s : str) : res pyval :=
  match s with
  | c :: _ =>
      if c =? 0xFEFF then Raise JSONDecodeError
      else
        match scan_once (S (2 * List.length s)) (skip_ws s) with
        | Some (obj, r) =>
            match skip_ws r with
            | [] => Ok obj
            | _ :: _ => Raise JSONDecodeError
            end
        | None => Raise JSONDecodeError
        end
  | [] => Raise JSONDecodeError
  end.

End Json.

(* ================================================================== *)
(** ** The script *)
(* ================================================================== *)

Module Inv.

(** An inventory is a dictionary whose values are Python ints. *)
Definition inventory := dict Z.

(** The value of [datetime.now()]: microseconds on the wall clock. *)
Definition datetime := Z.

(** An f-string is kept as its parts: the literal text and the
    values formatted into it. *)
Inductive part :=
| Lit (s : string)
| Fmt (v : pyval)
| FmtTime (t : datetime)
| FmtExn (e : exn).

Definition message := list part.

(** What a path names.  An absent name can be created; permissions
    and missing parent directories are not modelled. *)
Inductive fnode :=
| NoFile
| RegularFile (data : list Byte.byte)
| Directory.

(** The outside of the process: the files, the error stream, and the
    wall clock as the sequence of its future readings. *)
Record world := {
  fs : str -> fnode;
  stderr : list message;
  clock : nat -> datetime;
  ticks : nat
}.

(** [print(msg, file=sys.stderr)] *)
Definition print_stderr (msg : message) : M world unit :=
  fun w => (Ok tt, {| fs := fs w; stderr := stderr w ++ [msg];
                      clock := clock w; ticks := ticks w |}).

(** [datetime.now()] *)
Definition datetime_now : M world datetime :=
  fun w => (Ok (clock w (ticks w)),
            {| fs := fs w; stderr := stderr w;
               clock := clock w; ticks := S (ticks w) |}).

Definition invalid_item_msg (item : pyval) : message :=
  [Lit "Error: Item name '"; Fmt item;
   Lit "' is invalid. Must be a non-empty string."].

Definition invalid_qty_msg (qty item : pyval) : message :=
  [Lit "Error: Quantity '"; Fmt qty; Lit "' for item '"; Fmt item;
   Lit "' is invalid. Must be a positive integer."].

Definition added_msg (t : datetime) (qty item : pyval) : message :=
  [FmtTime t; Lit ": Added "; Fmt qty; Lit " of "; Fmt item].

Local Open Scope py_scope.

(** [add_item(stock_data, item, qty, logs=None)].  The dictionary and
    the list are mutated in place; the result carries their contents
    after the call.  [logs = None] stands for the omitted argument:
    the call then appends to a list of its own, which is lost.  Python's
    [or] looks at its right operand only when the left one is false:
    [not item] is asked of a [str], and [qty <= 0] of an [int]. *)
Definition add_item (stock_data : inventory) (item qty : pyval)
           (logs : option (list message))
  : M world (inventory * option (list message)) :=
  if negb (isinstance_str item) || negb (str_truthy (str_value item)) then
    print_stderr (invalid_item_msg item) ;;;
    ret (stock_data, logs)
  else if negb (isinstance_int qty) || (int_value qty <=? 0) then
    print_stderr (invalid_qty_msg qty item) ;;;
    ret (stock_data, logs)
  else
    let name := str_value item in
    let stock_data' :=
      store stock_data name (dict_get stock_data name 0 + int_value qty) in
    t <- datetime_now ;;
    ret (stock_data',
         option_map (fun l => l ++ [added_msg t qty item]) logs).

(** The [try] block of [remove_item], on the dictionary. *)
Definition remove_item_try (name : str) (qty : Z) : M inventory unit :=
  q <- getitem name ;;
  setitem name (q - qty) ;;;
  q' <- getitem name ;;
  if q' <=? 0 then delitem name else ret tt.

(** [remove_item(stock_data, item, qty)] *)
Definition remove_item (stock_data : inventory) (item qty : pyval)
  : M world inventory :=
  if negb (isinstance_str item) || negb (str_truthy (str_value item)) then
    print_stderr (invalid_item_msg item) ;;;
    ret stock_data
  else if negb (isinstance_int qty) || (int_value qty <=? 0) then
    print_stderr (invalid_qty_msg qty item) ;;;
    ret stock_data
  else
    let body :=
      try_except (remove_item_try (str_value item) (int_value qty))
                 is_KeyError (fun _ => ret tt) in
    match body stock_data with
    | (Ok _, stock_data') => ret stock_data'
    | (Raise e, _) => raise e
    end.

(** [get_qty(stock_data, item)] *)
Definition get_qty (stock_data : inventory) (item : str) : Z :=
  dict_get stock_data item 0.

(** [[item for item, qty in stock_data.items() if qty < threshold]] *)
Fixpoint check_low_items (stock_data : inventory) (threshold : Z)
  : list str :=
  match stock_data with
  | [] => []
  | (item, qty) :: rest =>
      if qty <? threshold
      then item :: check_low_items rest threshold
      else check_low_items rest threshold
  end.

(** The dictionary as the Python object [json.load] would return. *)
Definition inventory_value (stock_data : inventory) : pyval :=
  PyDict (map (fun kv => (fst kv, PyInt (snd kv))) stock_data).


(** [open(file, "r", encoding="utf-8")] and [f.read()] up to the raw
    bytes. *)
Definition open_read (file : str) : M world (list Byte.byte) :=
  fun w =>
    match fs w file with
    | NoFile => (Raise FileNotFoundError, w)
    | Directory => (Raise IsADirectoryError, w)
    | RegularFile data => (Ok data, w)
    end.


(** Decoding what was read, in text mode. *)
Definition read_text (data : list Byte.byte) : M world str :=
  match Utf8.decode data with
  | Some text => ret (Utf8.universal_newlines text)
  | None => raise UnicodeDecodeError
  end.


(** [json.load(f)] *)
Definition json_load (text : str) : M world pyval :=
  match Json.loads text with
  | Ok v => ret v
  | Raise e => raise e
  end.

Definition not_found_msg (file : str) : message :=
  [Lit "Info: '"; Fmt (PyStr file);
   Lit "' not found. Starting with empty inventory."].

Definition decode_error_msg (file : str) : message :=
  [Lit "Error: Could not decode JSON from '"; Fmt (PyStr file);
   Lit "'. Starting with empty inventory."].


(** [load_data(file)] *)
Definition load_data (file : str) : M world pyval :=
  try_except
    (data <- open_read file ;;
     text <- read_text data ;;
     json_load text)
    (fun e => is_FileNotFoundError e || is_JSONDecodeError e)
    (fun e =>
       if is_FileNotFoundError e then
         print_stderr (not_found_msg file) ;;;
         ret (PyDict [])
       else
         print_stderr (decode_error_msg file) ;;;
         ret (PyDict [])).


(** The transactions of [main], from the fresh [session_logs] to the
    last [remove_item]. *)
Definition main_transactions (stock_data : inventory)
  : M world (inventory * option (list message)) :=
  let session_logs := Some [] in
  r <- add_item stock_data (PyStr (u "apple")) (PyInt 10) session_logs ;;
  r <- add_item (fst r) (PyStr (u "banana")) (PyInt 15) (snd r) ;;
  r <- add_item (fst r) (PyStr (u "banana")) (PyInt (-2)) (snd r) ;;
  r <- add_item (fst r) (PyInt 123) (PyStr (u "ten")) (snd r) ;;
  d <- remove_item (fst r) (PyStr (u "apple")) (PyInt 3) ;;
  d <- remove_item d (PyStr (u "orange")) (PyInt 1) ;;
  d <- remove_item d (PyStr (u "banana")) (PyStr (u "two")) ;;
  ret (d, snd r).

End Inv.

Import Inv.

(* ================================================================== *)
(** ** The report *)
(* ================================================================== *)

Module Report.

Local Open Scope py_scope.









End Report.

Import Report.

(* ================================================================== *)
(** ** Vocabulary of the properties *)
(* ================================================================== *)

(** The data-model invariant: every stored quantity is positive. *)
Definition all_positive (d : inventory) : Prop :=
  Forall (fun kv => 0 < snd kv) d.

(** [k in d] *)
Definition has_key {V} (d : dict V) (k : str) : Prop := In k (keys d).

(** A non-empty string. *)
Inductive nonempty_str : pyval -> Prop :=
| nonempty_str_intro c s : nonempty_str (PyStr (c :: s)).

(** A positive integer, in Python's sense of integer: an instance of
    [int], which the Booleans are ([True] is the integer 1). *)
Inductive positive_int : pyval -> Prop :=
| positive_int_int z : 0 < z -> positive_int (PyInt z)
| positive_int_true : positive_int (PyBool true).

(** The world once [msg] has gone to the error stream. *)
Definition diagnosed (w : world) (msg : message) : world :=
  {| fs := fs w; stderr := stderr w ++ [msg];
     clock := clock w; ticks := ticks w |}.

(** The sequence [a] keeps the order of [b]: it is [b] with some
    elements left out. *)
Inductive subseq {A} : list A -> list A -> Prop :=
| subseq_nil : subseq [] []
| subseq_take x a b : subseq a b -> subseq (x :: a) (x :: b)
| subseq_skip x a b : subseq a b -> subseq a (x :: b).

(** The world after one reading of the clock. *)
Definition ticked (w : world) : world :=
  {| fs := fs w; stderr := stderr w; clock := clock w; ticks := S (ticks w) |}.

(** The entries [remove_item] leaves when it takes [n] of [name]. *)
Definition taken (d : inventory) (name : str) (n : Z) : inventory :=
  match lookup d name with
  | None => d
  | Some q => if q - n <=? 0 then erase d name else store d name (q - n)
  end.



(** *** The JSON text, for the proofs about it *)

Module JsonText.

Import Json.
Local Open Scope N_scope.

(** Every code point is one of Unicode's. *)
Definition is_str (s : str) : bool := forallb (fun c => c <? 0x110000) s.

(** No high surrogate stands directly before a low surrogate. *)
Fixpoint no_surrogate_pair (s : str) : bool :=
  match s with
  | [] => true
  | a :: t =>
      match t with
      | b :: _ => negb (is_high_surrogate a && is_low_surrogate b)
      | [] => true
      end && no_surrogate_pair t
  end.

(** Keys that come back from the file as they went in. *)
Definition good_keys (d : dict Z) : bool :=
  forallb (fun kv => is_str (fst kv) && no_surrogate_pair (fst kv)) d.

(** The items of a dictionary of ints, as Python values. *)
Definition as_pairs (d : dict Z) : list (str * pyval) :=
  map (fun kv => (fst kv, PyInt (snd kv))) d.








End JsonText.

Import JsonText.

(** *** Concrete data for the instances *)

(** A small stock and an idle world for the concrete instances. *)
Definition apple : str := u "apple".
Definition banana : str := u "banana".

Definition demo_stock : inventory := [(apple, 7); (banana, 15)].

Definition idle_world : world :=
  {| fs := fun _ => NoFile; stderr := []; clock := Z.of_nat; ticks := 0 |}.

(** A world holding one thing, at the default path. *)
Definition default_path : str := u "inventory.json".

Definition world_with (node : fnode) : world :=
  {| fs := fun p => if str_eqb p default_path then node else NoFile;
     stderr := []; clock := Z.of_nat; ticks := 0 |}.

(** A file with the given text, all of it ASCII. *)
Definition text_file (s : string) : fnode :=
  RegularFile (map Utf8.byte_of (u s)).


(* ================================================================== *)
(** ** Dictionaries *)
(* ================================================================== *)

Lemma str_eqb_eq (a b : str) : str_eqb a b = true <-> a = b.
Proof.
  revert b; induction a as [|x a IH]; intros [|y b]; simpl;
    try (split; congruence).
  rewrite andb_true_iff, N.eqb_eq, IH. split.
  - intros [-> ->]; reflexivity.
  - intros H; injection H; auto.
Qed.

Lemma str_eqb_refl (a : str) : str_eqb a a = true.
Proof. apply str_eqb_eq; reflexivity. Qed.

Lemma str_eqb_neq (a b : str) : a <> b -> str_eqb a b = false.
Proof.
  intros H. destruct (str_eqb a b) eqn:E; [|reflexivity].
  apply str_eqb_eq in E. contradiction.
Qed.

Lemma str_eqb_spec (a b : str) : reflect (a = b) (str_eqb a b).
Proof.
  destruct (str_eqb a b) eqn:E; constructor.
  - apply str_eqb_eq; assumption.
  - intros ->. rewrite str_eqb_refl in E. discriminate.
Qed.

Section DictFacts.
Context {V : Type}.
Implicit Types (d : dict V) (k : str) (v : V).

Lemma lookup_None d k : lookup d k = None <-> ~ has_key d k.
Proof.
  unfold has_key. induction d as [|[k' v'] d IH]; simpl.
  - tauto.
  - destruct (str_eqb_spec k' k) as [->|Hne].
    + split; [discriminate | intros H; exfalso; apply H; auto].
    + rewrite IH. split.
      * intros H [E|HI]; auto.
      * intros H HI; apply H; auto.
Qed.

Lemma lookup_Some_has_key d k v : lookup d k = Some v -> has_key d k.
Proof.
  intros H. destruct (in_dec (list_eq_dec N.eq_dec) k (keys d)) as [HI|HI];
    [exact HI|].
  apply lookup_None in HI. congruence.
Qed.

Lemma lookup_In d k v : lookup d k = Some v -> In (k, v) d.
Proof.
  induction d as [|[k' v'] d IH]; simpl; [discriminate|].
  destruct (str_eqb_spec k' k) as [->|Hne].
  - intros [= ->]; auto.
  - auto.
Qed.

Lemma lookup_store_same d k v : lookup (store d k v) k = Some v.
Proof.
  induction d as [|[k' v'] d IH]; simpl.
  - rewrite str_eqb_refl; reflexivity.
  - destruct (str_eqb k' k) eqn:E; simpl; rewrite E; auto.
Qed.

Lemma lookup_store_other d k k' v :
  k' <> k -> lookup (store d k v) k' = lookup d k'.
Proof.
  intros Hne. induction d as [|[k0 v0] d IH]; simpl.
  - rewrite str_eqb_neq; auto.
  - destruct (str_eqb_spec k0 k) as [->|H0]; simpl.
    + rewrite str_eqb_neq; auto.
    + rewrite IH; reflexivity.
Qed.

Lemma keys_store_present d k v :
  has_key d k -> keys (store d k v) = keys d.
Proof.
  unfold has_key. induction d as [|[k0 v0] d IH]; simpl; [tauto|].
  destruct (str_eqb_spec k0 k) as [->|H0]; simpl; [reflexivity|].
  intros [E|HI]; [contradiction|]. f_equal; auto.
Qed.

Lemma keys_store_absent d k v :
  ~ has_key d k -> keys (store d k v) = keys d ++ [k].
Proof.
  unfold has_key. induction d as [|[k0 v0] d IH]; simpl; [reflexivity|].
  destruct (str_eqb_spec k0 k) as [->|H0]; simpl.
  - intros H; exfalso; auto.
  - intros H; f_equal; auto.
Qed.


Lemma wf_store d k v : wf_dict d -> wf_dict (store d k v).
Proof.
  unfold wf_dict. intros Hwf.
  destruct (in_dec (list_eq_dec N.eq_dec) k (keys d)) as [HI|HI].
  - rewrite keys_store_present; assumption.
  - rewrite keys_store_absent by assumption.
    apply NoDup_app; [assumption | repeat constructor; simpl; tauto |].
    intros x Hx [<-|[]]. contradiction.
Qed.

Lemma keys_erase_incl d k x : In x (keys (erase d k)) -> In x (keys d).
Proof.
  induction d as [|[k0 v0] d IH]; simpl; [tauto|].
  destruct (str_eqb k0 k); simpl; tauto.
Qed.

Lemma wf_erase d k : wf_dict d -> wf_dict (erase d k).
Proof.
  unfold wf_dict. induction d as [|[k0 v0] d IH]; simpl; [auto|].
  intros Hwf. inversion Hwf as [|? ? Hn Hd]; subst.
  destruct (str_eqb k0 k); simpl; [assumption|].
  constructor; [|auto]. intros HI. apply Hn. eapply keys_erase_incl; eauto.
Qed.

Lemma lookup_erase_same d k : wf_dict d -> lookup (erase d k) k = None.
Proof.
  unfold wf_dict. induction d as [|[k0 v0] d IH]; simpl; [reflexivity|].
  intros Hwf. inversion Hwf as [|? ? Hn Hd]; subst.
  destruct (str_eqb_spec k0 k) as [->|H0]; simpl.
  - apply lookup_None; exact Hn.
  - rewrite str_eqb_neq by assumption. auto.
Qed.

Lemma lookup_erase_other d k k' :
  k' <> k -> lookup (erase d k) k' = lookup d k'.
Proof.
  intros Hne. induction d as [|[k0 v0] d IH]; simpl; [reflexivity|].
  destruct (str_eqb_spec k0 k) as [->|H0]; simpl.
  - rewrite str_eqb_neq; auto.
  - rewrite IH; reflexivity.
Qed.

Lemma erase_store d k v : erase (store d k v) k = erase d k.
Proof.
  induction d as [|[k0 v0] d IH]; simpl.
  - rewrite str_eqb_refl; reflexivity.
  - destruct (str_eqb k0 k) eqn:E; simpl; rewrite E; [reflexivity|].
    f_equal; assumption.
Qed.

Lemma Forall_store (P : str * V -> Prop) d k v :
  Forall P d -> (forall k', P (k', v)) -> Forall P (store d k v).
Proof.
  intros Hd Hv. induction Hd as [|[k0 v0] d H0 Hd IH]; simpl.
  - constructor; auto.
  - destruct (str_eqb k0 k); constructor; auto.
Qed.

Lemma Forall_erase (P : str * V -> Prop) d k :
  Forall P d -> Forall P (erase d k).
Proof.
  intros Hd. induction Hd as [|[k0 v0] d H0 Hd IH]; simpl; [constructor|].
  destruct (str_eqb k0 k); [assumption | constructor; auto].
Qed.

End DictFacts.

(* ================================================================== *)
(** ** Validation *)
(* ================================================================== *)


Lemma item_check_passes (item : pyval) :
  nonempty_str item <->
  negb (isinstance_str item) || negb (str_truthy (str_value item)) = false.
Proof.
  split.
  - intros []; reflexivity.
  - destruct item as [| | | |[|c s]| |]; simpl; try discriminate.
    intros _; constructor.
Qed.

Lemma item_check_fails (item : pyval) :
  ~ nonempty_str item ->
  negb (isinstance_str item) || negb (str_truthy (str_value item)) = true.
Proof.
  intros H. destruct (negb (isinstance_str item) || negb (str_truthy (str_value item))) eqn:E;
    [reflexivity|].
  apply item_check_passes in E. contradiction.
Qed.

Lemma qty_check_passes (qty : pyval) :
  positive_int qty <->
  negb (isinstance_int qty) || (int_value qty <=? 0) = false.
Proof.
  split.
  - intros [z Hz|]; simpl; [|reflexivity]. apply Z.leb_gt; assumption.
  - destruct qty as [|[|]|z| | | |]; simpl; try discriminate.
    + intros _; constructor.
    + intros H. apply Z.leb_gt in H. constructor; assumption.
Qed.

Lemma qty_check_fails (qty : pyval) :
  ~ positive_int qty ->
  negb (isinstance_int qty) || (int_value qty <=? 0) = true.
Proof.
  intros H. destruct (negb (isinstance_int qty) || (int_value qty <=? 0)) eqn:E;
    [reflexivity|].
  apply qty_check_passes in E. contradiction.
Qed.


(* ================================================================== *)
(** ** What the two mutations compute *)
(* ================================================================== *)

Lemma add_item_valid d item qty logs w :
  nonempty_str item -> positive_int qty ->
  add_item d item qty logs w =
  (Ok (store d (str_value item) (get_qty d (str_value item) + int_value qty),
       option_map
         (fun l => l ++ [added_msg (clock w (ticks w)) qty item]) logs),
   ticked w).
Proof.
  intros Hi Hq. unfold add_item.
  apply item_check_passes in Hi. apply qty_check_passes in Hq.
  rewrite Hi, Hq. reflexivity.
Qed.

Lemma add_item_bad_item d item qty logs w :
  ~ nonempty_str item ->
  add_item d item qty logs w =
  (Ok (d, logs), diagnosed w (invalid_item_msg item)).
Proof.
  intros Hi. unfold add_item. rewrite (item_check_fails _ Hi). reflexivity.
Qed.

Lemma add_item_bad_qty d item qty logs w :
  nonempty_str item -> ~ positive_int qty ->
  add_item d item qty logs w =
  (Ok (d, logs), diagnosed w (invalid_qty_msg qty item)).
Proof.
  intros Hi Hq. unfold add_item.
  apply item_check_passes in Hi. rewrite Hi, (qty_check_fails _ Hq).
  reflexivity.
Qed.

Lemma remove_item_try_run name n (d : inventory) :
  remove_item_try name n d =
  match lookup d name with
  | None => (Raise KeyError, d)
  | Some _ => (Ok tt, taken d name n)
  end.
Proof.
  unfold remove_item_try, taken, bind, getitem, setitem, delitem, ret.
  destruct (lookup d name) as [q|] eqn:E; [|reflexivity].
  rewrite lookup_store_same.
  destruct (q - n <=? 0); [|reflexivity].
  rewrite lookup_store_same, erase_store. reflexivity.
Qed.

Lemma remove_item_valid d item qty w :
  nonempty_str item -> positive_int qty ->
  remove_item d item qty w = (Ok (taken d (str_value item) (int_value qty)), w).
Proof.
  intros Hi Hq. unfold remove_item.
  apply item_check_passes in Hi. apply qty_check_passes in Hq.
  rewrite Hi, Hq. unfold try_except. rewrite remove_item_try_run.
  unfold taken. destruct (lookup d (str_value item)); reflexivity.
Qed.


Lemma remove_item_bad_qty d item qty w :
  nonempty_str item -> ~ positive_int qty ->
  remove_item d item qty w = (Ok d, diagnosed w (invalid_qty_msg qty item)).
Proof.
  intros Hi Hq. unfold remove_item.
  apply item_check_passes in Hi. rewrite Hi, (qty_check_fails _ Hq).
  reflexivity.
Qed.

Lemma get_qty_lookup (d : inventory) k q : lookup d k = Some q -> get_qty d k = q.
Proof. unfold get_qty, dict_get. intros ->; reflexivity. Qed.

Lemma get_qty_absent (d : inventory) k : ~ has_key d k -> get_qty d k = 0.
Proof.
  unfold get_qty, dict_get. intros H. apply lookup_None in H. rewrite H.
  reflexivity.
Qed.

Lemma all_positive_lookup (d : inventory) k q :
  all_positive d -> lookup d k = Some q -> 0 < q.
Proof.
  intros Hp Hl. apply lookup_In in Hl.
  unfold all_positive in Hp. rewrite Forall_forall in Hp.
  exact (Hp _ Hl).
Qed.

Lemma all_positive_get_qty (d : inventory) k : all_positive d -> 0 <= get_qty d k.
Proof.
  intros Hp. unfold get_qty, dict_get.
  destruct (lookup d k) as [q|] eqn:E; [|lia].
  pose proof (all_positive_lookup _ _ _ Hp E). lia.
Qed.

Lemma wf_taken d name n : wf_dict d -> wf_dict (taken d name n).
Proof.
  intros Hwf. unfold taken. destruct (lookup d name) as [q|]; [|assumption].
  destruct (q - n <=? 0); [apply wf_erase | apply wf_store]; assumption.
Qed.

Lemma all_positive_taken d name n : all_positive d -> all_positive (taken d name n).
Proof.
  intros Hp. unfold taken. destruct (lookup d name) as [q|]; [|assumption].
  destruct (Z.leb_spec (q - n) 0).
  - apply Forall_erase; assumption.
  - apply Forall_store; [assumption | intros; simpl; lia].
Qed.

(* ================================================================== *)
(** ** Properties of the mutations and queries *)
(* ================================================================== *)

Lemma demo_stock_wf : wf_dict demo_stock.
Proof.
  unfold wf_dict. simpl. repeat constructor; simpl; intuition discriminate.
Qed.

Lemma demo_stock_positive : all_positive demo_stock.
Proof. repeat constructor; simpl; lia. Qed.

(** *** The examples of the specification, run on the embedding *)

Example add_twice_accumulates :
  (r <- add_item [] (PyStr (u "x")) (PyInt 3) None ;;
   r <- add_item (fst r) (PyStr (u "x")) (PyInt 2) None ;;
   ret (get_qty (fst r) (u "x")))%py idle_world
  = (Ok 5, ticked (ticked idle_world)).
Proof. reflexivity. Qed.

Example remove_more_than_stocked :
  (r <- add_item [] (PyStr (u "x")) (PyInt 3) None ;;
   d <- remove_item (fst r) (PyStr (u "x")) (PyInt 5) ;;
   ret (get_qty d (u "x"), keys d))%py idle_world
  = (Ok (0, []), ticked idle_world).
Proof. reflexivity. Qed.

Example remove_ghost :
  remove_item [] (PyStr (u "ghost")) (PyInt 1) idle_world = (Ok [], idle_world).
Proof. reflexivity. Qed.

Example add_negative_quantity :
  add_item demo_stock (PyStr (u "x")) (PyInt (-2)) None idle_world
  = (Ok (demo_stock, None),
     diagnosed idle_world (invalid_qty_msg (PyInt (-2)) (PyStr (u "x")))).
Proof. reflexivity. Qed.

Example add_number_as_item :
  add_item demo_stock (PyInt 123) (PyInt 5) None idle_world
  = (Ok (demo_stock, None),
     diagnosed idle_world (invalid_item_msg (PyInt 123))).
Proof. reflexivity. Qed.

(** The run of [main] on an empty inventory: 7 apples and 15 bananas,
    two log entries, three diagnostics. *)
Example main_transactions_run :
  main_transactions [] idle_world
  = (Ok (demo_stock,
         Some [added_msg 0 (PyInt 10) (PyStr apple);
               added_msg 1 (PyInt 15) (PyStr banana)]),
     {| fs := fs idle_world;
        stderr := [invalid_qty_msg (PyInt (-2)) (PyStr banana);
                   invalid_item_msg (PyInt 123);
                   invalid_qty_msg (PyStr (u "two")) (PyStr banana)];
        clock := clock idle_world;
        ticks := 2 |}).
Proof. reflexivity. Qed.





(** C4. With a non-empty string [name] and a positive integer [n]:
    on an inventory without [name], [remove_item] returns and changes
    nothing; on an inventory holding [q] of it, the call returns, keeps
    [q - n] under [name] when that is positive, and otherwise removes
    the key, after which [get_qty] gives 0.  Other keys keep their
    quantities. *)
Theorem C4_remove_item_takes
        (d : inventory) (name : str) (n : Z) (w : world) :
  wf_dict d -> name <> [] -> 0 < n ->
  (~ has_key d name ->
   remove_item d (PyStr name) (PyInt n) w = (Ok d, w))
  /\
  (forall q,
      lookup d name = Some q ->
      exists d',
        remove_item d (PyStr name) (PyInt n) w = (Ok d', w)
        /\ (0 < q - n -> lookup d' name = Some (q - n) /\ keys d' = keys d)
        /\ (q - n <= 0 -> ~ has_key d' name /\ get_qty d' name = 0)
        /\ (forall k, k <> name -> lookup d' k = lookup d k)).
Proof.
  intros Hwf Hne Hn.
  assert (Hi : nonempty_str (PyStr name)).
  { destruct name; [contradiction | constructor]. }
  pose proof (remove_item_valid d _ _ w Hi (positive_int_int n Hn)) as Hrun.
  simpl in Hrun. split.
  - intros Habs. rewrite Hrun. unfold taken.
    apply lookup_None in Habs. rewrite Habs. reflexivity.
  - intros q Hl. exists (taken d name n). split; [exact Hrun|].
    unfold taken. rewrite Hl.
    destruct (Z.leb_spec (q - n) 0) as [Hle|Hgt]; split; [|split| |split].
    + lia.
    + intros _.
      assert (Hgone : ~ has_key (erase d name) name).
      { apply lookup_None. apply lookup_erase_same; assumption. }
      split; [exact Hgone | apply get_qty_absent; exact Hgone].
    + intros k Hk. apply lookup_erase_other; assumption.
    + intros _. split; [apply lookup_store_same|].
      apply keys_store_present. eapply lookup_Some_has_key; eassumption.
    + lia.
    + intros k Hk. apply lookup_store_other; assumption.
Qed.

Lemma C4_remove_item_takes_witness :
  (~ has_key demo_stock apple ->
   remove_item demo_stock (PyStr apple) (PyInt 9) idle_world
   = (Ok demo_stock, idle_world))
  /\
  (forall q,
      lookup demo_stock apple = Some q ->
      exists d',
        remove_item demo_stock (PyStr apple) (PyInt 9) idle_world
        = (Ok d', idle_world)
        /\ (0 < q - 9 -> lookup d' apple = Some (q - 9)
                         /\ keys d' = keys demo_stock)
        /\ (q - 9 <= 0 -> ~ has_key d' apple /\ get_qty d' apple = 0)
        /\ (forall k, k <> apple -> lookup d' k = lookup demo_stock k)).
Proof.
  apply (C4_remove_item_takes demo_stock apple 9 idle_world).
  - exact demo_stock_wf.
  - discriminate.
  - lia.
Defined.


Lemma minus_two_not_positive : ~ positive_int (PyInt (-2)).
Proof. intros H. inversion H. lia. Qed.



Lemma subseq_refl_skip {A} (l : list A) : subseq [] l.
Proof. induction l; constructor; assumption. Qed.

Lemma subseq_In {A} (a b : list A) x : subseq a b -> In x a -> In x b.
Proof.
  induction 1; simpl; [tauto | |]; intros; intuition.
Qed.

Lemma subseq_NoDup {A} (a b : list A) : subseq a b -> NoDup b -> NoDup a.
Proof.
  induction 1; intros Hb; [constructor | |].
  - inversion Hb; subst. constructor; [|auto].
    intros HI. eapply subseq_In in HI; eauto.
  - inversion Hb; auto.
Qed.

Lemma check_low_items_subseq (d : inventory) t :
  subseq (check_low_items d t) (keys d).
Proof.
  induction d as [|[k q] d IH]; simpl; [constructor|].
  destruct (q <? t); constructor; assumption.
Qed.

Lemma check_low_items_In (d : inventory) t k :
  wf_dict d ->
  (In k (check_low_items d t) <-> exists q, lookup d k = Some q /\ q < t).
Proof.
  unfold wf_dict. induction d as [|[k0 q0] d IH]; simpl; intros Hwf.
  - split; [tauto | intros [q [H _]]; discriminate].
  - inversion Hwf as [|? ? Hn Hd]; subst. specialize (IH Hd).
    destruct (str_eqb_spec k0 k) as [->|Hne].
    + destruct (Z.ltb_spec q0 t) as [Hlt|Hge].
      * split; [intros _; eauto | intros _; left; reflexivity].
      * split.
        -- intros HI. exfalso. apply Hn.
           eapply subseq_In; [apply check_low_items_subseq | exact HI].
        -- intros [q [[= <-] Hq]]. lia.
    + destruct (q0 <? t); simpl; rewrite IH; [|tauto].
      split; [intros [E|H]; [contradiction | exact H] | auto].
Qed.

(** C7. [check_low_items] returns (it is a total function) exactly the
    items whose stored quantity is below the threshold: a name is in
    the result if and only if the inventory holds it with such a
    quantity, each at most once, and the result follows the order of the
    inventory's keys.  The empty inventory gives the empty list, and
    [{"a": 2, "b": 10, "c": 4}] with threshold 5 gives [["a", "c"]]. *)
Theorem C7_check_low_items_selects
        (d : inventory) (threshold : Z) :
  wf_dict d ->
  (forall k, In k (check_low_items d threshold)
             <-> exists q, lookup d k = Some q /\ q < threshold)
  /\ subseq (check_low_items d threshold) (keys d)
  /\ NoDup (check_low_items d threshold)
  /\ check_low_items [] threshold = []
  /\ check_low_items [(u "a", 2); (u "b", 10); (u "c", 4)] 5 = [u "a"; u "c"].
Proof.
  intros Hwf. split; [|split; [|split; [|split]]].
  - intros k. apply check_low_items_In; assumption.
  - apply check_low_items_subseq.
  - eapply subseq_NoDup; [apply check_low_items_subseq | exact Hwf].
  - reflexivity.
  - reflexivity.
Qed.

Lemma C7_check_low_items_selects_witness :
  (forall k, In k (check_low_items demo_stock 10)
             <-> exists q, lookup demo_stock k = Some q /\ q < 10)
  /\ subseq (check_low_items demo_stock 10) (keys demo_stock)
  /\ NoDup (check_low_items demo_stock 10)
  /\ check_low_items [] 10 = []
  /\ check_low_items [(u "a", 2); (u "b", 10); (u "c", 4)] 5 = [u "a"; u "c"].
Proof.
  apply (C7_check_low_items_selects demo_stock 10). exact demo_stock_wf.
Defined.

(** C10. The quantity check lets through a value that is no integer
    proper: with the Boolean [True] as quantity and any non-empty item
    name, [add_item] writes no diagnostic and raises the stored
    quantity by 1, and [remove_item] takes 1 away as well. *)
Theorem C10_true_passes_the_quantity_check
        (d : inventory) (c : codepoint) (s : str)
        (logs : option (list message)) (w : world) :
  (forall z, PyBool true <> PyInt z)
  /\ isinstance_int (PyBool true) = true
  /\ (exists d' logs',
         add_item d (PyStr (c :: s)) (PyBool true) logs w
         = (Ok (d', logs'), ticked w)
         /\ get_qty d' (c :: s) = get_qty d (c :: s) + 1)
  /\ remove_item d (PyStr (c :: s)) (PyBool true) w
     = (Ok (taken d (c :: s) 1), w).
Proof.
  split; [discriminate|]. split; [reflexivity|]. split.
  - rewrite (add_item_valid d _ _ logs w (nonempty_str_intro c s)
               positive_int_true).
    do 2 eexists. split; [reflexivity|]. simpl.
    apply get_qty_lookup. apply lookup_store_same.
  - apply (remove_item_valid d _ _ w (nonempty_str_intro c s)
             positive_int_true).
Qed.

(* ================================================================== *)
(** ** Facts about the JSON text *)
(* ================================================================== *)

Module JsonFacts.

Import Json.
Local Open Scope N_scope.


(** *** Hexadecimal escapes *)



(** *** Surrogate pairs *)







(** *** Strings *)











(** *** Integers *)














(** *** Values *)










(** *** The text is plain ASCII *)













End JsonFacts.

(* ================================================================== *)
(** ** The decoder's fuel *)
(* ================================================================== *)

Module JsonFuel.

Import Json.
Local Open Scope N_scope.

Ltac split_match H :=
  repeat match type of H with
         | context [match ?x with _ => _ end] => destruct x eqn:?
         | context [if ?x then _ else _] => destruct x eqn:?
         end; try discriminate H.

Lemma skip_ws_le s : (List.length (skip_ws s) <= List.length s)%nat.
Proof.
  induction s as [|c s IH]; cbn [skip_ws]; [apply Nat.le_refl|].
  destruct (is_ws c); cbn [List.length]; lia.
Qed.

Lemma emit_Some c x k r :
  emit c x = Some (k, r) -> exists k', x = Some (k', r) /\ k = c :: k'.
Proof.
  unfold emit. destruct x as [[t rest]|]; [|discriminate].
  intros [= <- <-]. eauto.
Qed.

Lemma scanstring_lt_aux n :
  forall s k r, (List.length s <= n)%nat ->
    scanstring s = Some (k, r) -> (List.length r < List.length s)%nat.
Proof.
  induction n as [|n IH]; intros s k r Hlen H.
  - destruct s; [discriminate | cbn [List.length] in Hlen; lia].
  - destruct s as [|c s1]; [discriminate|].
    cbn [List.length] in Hlen.
    assert (IH' : forall s' k' c', (List.length s' <= n)%nat ->
               emit c' (scanstring s') = Some (k', r) ->
               (List.length r < List.length s')%nat).
    { intros s' k' c' Hl He. apply emit_Some in He.
      destruct He as (k'' & He & _). eapply IH; eassumption. }
    cbn [scanstring] in H.
    split_match H;
      try (injection H as <- <-; cbn [List.length]; lia);
      match goal with
      | H : emit _ (scanstring ?s') = Some _ |- _ =>
          apply IH' in H; [subst; cbn [List.length] in *; lia
                          | subst; cbn [List.length] in *; lia]
      end.
Qed.

Lemma scanstring_lt s k r :
  scanstring s = Some (k, r) -> (List.length r < List.length s)%nat.
Proof. apply (scanstring_lt_aux (List.length s)). apply Nat.le_refl. Qed.

Lemma strip_prefix_length p : forall s r,
  strip_prefix p s = Some r ->
  List.length s = (List.length p + List.length r)%nat.
Proof.
  induction p as [|a p IH]; intros s r H.
  - injection H as <-. reflexivity.
  - destruct s as [|b s]; [discriminate|]. cbn [strip_prefix] in H.
    destruct (a =? b); [|discriminate].
    cbn [List.length]. rewrite (IH _ _ H). reflexivity.
Qed.

Lemma span_digits_length s : forall ds r,
  span_digits s = (ds, r) ->
  List.length s = (List.length ds + List.length r)%nat.
Proof.
  induction s as [|c s IH]; intros ds r H; cbn [span_digits] in H.
  - injection H as <- <-. reflexivity.
  - destruct (is_digit c).
    + destruct (span_digits s) as [ds' r'] eqn:E.
      injection H as <- <-. cbn [List.length]. rewrite (IH _ _ eq_refl).
      reflexivity.
    + injection H as <- <-. reflexivity.
Qed.

Ltac use_pairs :=
  repeat match goal with
         | H : (_, _) = (_, _) |- _ => injection H as ? ?; subst
         | H : Some _ = Some _ |- _ => injection H as ? ?; subst
         | H : span_digits _ = _ |- _ => apply span_digits_length in H
         end;
  cbn [List.length] in *.

Lemma match_integer_lt s i r :
  match_integer s = Some (i, r) -> (List.length r < List.length s)%nat.
Proof.
  unfold match_integer. intros H.
  destruct s as [|c s]; [discriminate|].
  destruct (c =? 45); split_match H; use_pairs; lia.
Qed.

Lemma match_frac_le s f r :
  match_frac s = (f, r) -> (List.length r <= List.length s)%nat.
Proof.
  unfold match_frac. intros H.
  split_match H; use_pairs; lia.
Qed.

Lemma match_exp_le s e r :
  match_exp s = (e, r) -> (List.length r <= List.length s)%nat.
Proof.
  unfold match_exp. intros H.
  destruct s as [|c s]; [use_pairs; lia|].
  destruct ((c =? 101) || (c =? 69)); [|use_pairs; lia].
  destruct s as [|d t]; [split_match H; use_pairs; lia|].
  destruct ((d =? 45) || (d =? 43)); split_match H; use_pairs; lia.
Qed.

Lemma match_number_lt s i f e r :
  match_number s = Some (i, f, e, r) -> (List.length r < List.length s)%nat.
Proof.
  unfold match_number. intros H.
  destruct (match_integer s) as [[i0 r0]|] eqn:Ei; [|discriminate].
  destruct (match_frac r0) as [f0 r1] eqn:Ef.
  destruct (match_exp r1) as [e0 r2] eqn:Ee.
  injection H as <- <- <- <-.
  apply match_integer_lt in Ei. apply match_frac_le in Ef.
  apply match_exp_le in Ee. lia.
Qed.

Ltac note_lengths :=
  repeat match goal with
         | H : scanstring _ = Some (_, _) |- _ => apply scanstring_lt in H
         | H : match_number _ = Some (_, _, _, _) |- _ =>
             apply match_number_lt in H
         | H : strip_prefix _ _ = Some _ |- _ =>
             apply strip_prefix_length in H; simpl List.length in H
         | H : skip_ws ?s = _ :: _ |- _ =>
             let L := fresh "L" in
             pose proof (skip_ws_le s) as L; rewrite H in L; clear H
         | H : Some _ = Some _ |- _ => injection H as ? ?; subst
         end;
  cbn [List.length] in *.

(** Parsing a value uses up some of the text. *)
Lemma parse_lt fuel :
  (forall s v r, scan_once fuel s = Some (v, r) ->
                 (List.length r < List.length s)%nat)
  /\ (forall s vs r, array_loop fuel s = Some (vs, r) ->
                     (List.length r < List.length s)%nat)
  /\ (forall s ps r, object_loop fuel s = Some (ps, r) ->
                     (List.length r < List.length s)%nat).
Proof.
  induction fuel as [|fuel (IHv & IHa & IHo)].
  - repeat split; intros; discriminate.
  - split; [|split].
    + intros s v r H. cbn [scan_once] in H.
      destruct s as [|c s1]; [discriminate|].
      split_match H;
        repeat match goal with
               | H : object_loop fuel _ = Some (_, _) |- _ => apply IHo in H
               | H : array_loop fuel _ = Some (_, _) |- _ => apply IHa in H
               end;
        note_lengths; lia.
    + intros s vs r H. cbn [array_loop] in H.
      destruct (scan_once fuel s) as [[value r0]|] eqn:Ev; [|discriminate].
      apply IHv in Ev.
      pose proof (skip_ws_le r0) as Lr0.
      split_match H;
        repeat match goal with
               | H : array_loop fuel (skip_ws ?x) = Some (_, _) |- _ =>
                   apply IHa in H; pose proof (skip_ws_le x)
               end;
        note_lengths; lia.
    + intros s ps r H. cbn [object_loop] in H.
      destruct (scanstring s) as [[key r0]|] eqn:Ek; [|discriminate].
      apply scanstring_lt in Ek.
      pose proof (skip_ws_le r0) as Lr0.
      destruct (skip_ws r0) as [|c r1] eqn:E1; [discriminate|].
      destruct (c =? 58); [|discriminate].
      pose proof (skip_ws_le r1) as Lr1.
      destruct (scan_once fuel (skip_ws r1)) as [[value r2]|] eqn:Ev;
        [|discriminate].
      apply IHv in Ev.
      pose proof (skip_ws_le r2) as Lr2.
      destruct (skip_ws r2) as [|d r3] eqn:E2; [discriminate|].
      pose proof (skip_ws_le r3) as Lr3.
      split_match H;
        repeat match goal with
               | H : object_loop fuel _ = Some (_, _) |- _ => apply IHo in H
               end;
        note_lengths; lia.
Qed.

Section OneMoreLevel.
Variables f g : nat.
Hypothesis Hv : forall x, (2 * List.length x + 1 <= f)%nat ->
                          scan_once f x = scan_once g x.
Hypothesis Ha : forall x, (2 * List.length x + 2 <= f)%nat ->
                          array_loop f x = array_loop g x.
Hypothesis Ho : forall x, (2 * List.length x + 1 <= f)%nat ->
                          object_loop f x = object_loop g x.

Lemma scan_once_level s :
  (2 * List.length s + 1 <= S f)%nat ->
  scan_once (S f) s = scan_once (S g) s.
Proof.
  intros Hb. cbn [scan_once]. destruct s as [|c s1]; [reflexivity|].
  cbn [List.length] in Hb. pose proof (skip_ws_le s1) as L1.
  destruct (c =? 34); [reflexivity|].
  destruct (c =? 123).
  { destruct (skip_ws s1) as [|d s2]; [reflexivity|].
    cbn [List.length] in L1.
    destruct (d =? 125); [reflexivity|].
    destruct (d =? 34); [|reflexivity].
    rewrite Ho by lia. reflexivity. }
  destruct (c =? 91); [|reflexivity].
  destruct (skip_ws s1) as [|d s2]; [reflexivity|].
  destruct (d =? 93); [reflexivity|].
  rewrite Ha by lia. reflexivity.
Qed.

Lemma array_loop_level s :
  (2 * List.length s + 2 <= S f)%nat ->
  array_loop (S f) s = array_loop (S g) s.
Proof.
  intros Hb. cbn [array_loop]. rewrite <- Hv by lia.
  destruct (scan_once f s) as [[value r]|] eqn:Ev; [|reflexivity].
  apply (proj1 (parse_lt f)) in Ev.
  pose proof (skip_ws_le r) as L0.
  destruct (skip_ws r) as [|c r1]; [reflexivity|].
  cbn [List.length] in L0. pose proof (skip_ws_le r1) as L1.
  destruct (c =? 93); [reflexivity|].
  destruct (c =? 44); [|reflexivity].
  rewrite Ha by lia. reflexivity.
Qed.

Lemma object_loop_level s :
  (2 * List.length s + 1 <= S f)%nat ->
  object_loop (S f) s = object_loop (S g) s.
Proof.
  intros Hb. cbn [object_loop].
  destruct (scanstring s) as [[key r]|] eqn:Ek; [|reflexivity].
  apply scanstring_lt in Ek.
  pose proof (skip_ws_le r) as L0.
  destruct (skip_ws r) as [|c r1]; [reflexivity|].
  cbn [List.length] in L0. pose proof (skip_ws_le r1) as L1.
  destruct (c =? 58); [|reflexivity].
  rewrite <- Hv by lia.
  destruct (scan_once f (skip_ws r1)) as [[value r2]|] eqn:Ev; [|reflexivity].
  apply (proj1 (parse_lt f)) in Ev.
  pose proof (skip_ws_le r2) as L2.
  destruct (skip_ws r2) as [|d r3]; [reflexivity|].
  cbn [List.length] in L2. pose proof (skip_ws_le r3) as L3.
  destruct (d =? 125); [reflexivity|].
  destruct (d =? 44); [|reflexivity].
  destruct (skip_ws r3) as [|q r4]; [reflexivity|].
  cbn [List.length] in L3.
  destruct (q =? 34); [|reflexivity].
  rewrite Ho by lia. reflexivity.
Qed.

End OneMoreLevel.

(** Past twice the length of the text, one more unit of fuel changes
    nothing. *)
Lemma fuel_step fuel :
  (forall s, (2 * List.length s + 1 <= fuel)%nat ->
             scan_once fuel s = scan_once (S fuel) s)
  /\ (forall s, (2 * List.length s + 2 <= fuel)%nat ->
                array_loop fuel s = array_loop (S fuel) s)
  /\ (forall s, (2 * List.length s + 1 <= fuel)%nat ->
                object_loop fuel s = object_loop (S fuel) s).
Proof.
  induction fuel as [|fuel (IHv & IHa & IHo)].
  - repeat split; intros s Hb; lia.
  - split; [|split]; intros s Hb.
    + apply scan_once_level; assumption.
    + apply array_loop_level; assumption.
    + apply object_loop_level; assumption.
Qed.

(** The fuel that [loads] gives is enough: any more gives the same
    result. *)
Lemma scan_once_fuel_enough fuel s :
  (2 * List.length s < fuel)%nat ->
  scan_once fuel (skip_ws s) = scan_once (S (2 * List.length s)) (skip_ws s).
Proof.
  intros Hb. pose proof (skip_ws_le s) as L.
  induction fuel as [|fuel IH]; [lia|].
  destruct (Nat.eq_dec fuel (2 * List.length s)) as [->|Hne]; [reflexivity|].
  rewrite <- IH by lia. symmetry. apply fuel_step. lia.
Qed.

End JsonFuel.

(* ================================================================== *)
(** ** Persistence *)
(* ================================================================== *)

Import JsonFacts.

Lemma inventory_value_pairs (d : inventory) : inventory_value d = PyDict (as_pairs d).
Proof. reflexivity. Qed.

Lemma loads_cases (t : str) :
  (exists v, Json.loads t = Ok v) \/ Json.loads t = Raise JSONDecodeError.
Proof.
  unfold Json.loads. destruct t as [|c t]; [right; reflexivity|].
  destruct (c =? 65279)%N; [right; reflexivity|].
  destruct (Json.scan_once _ _) as [[obj r]|]; [|right; reflexivity].
  destruct (Json.skip_ws r); [left; eauto | right; reflexivity].
Qed.





Lemma load_data_refused file w data text :
  fs w file = RegularFile data -> Utf8.decode data = Some text ->
  Json.loads (Utf8.universal_newlines text) = Raise JSONDecodeError ->
  load_data file w = (Ok (PyDict []), diagnosed w (decode_error_msg file)).
Proof.
  intros Hf Hd Hl.
  unfold load_data, try_except, bind, open_read, read_text, json_load.
  rewrite Hf, Hd. unfold ret. rewrite Hl. reflexivity.
Qed.







(** [load_data] writes no file. *)
Lemma load_data_reads_only file w : fs (snd (load_data file w)) = fs w.
Proof.
  unfold load_data, try_except, bind, open_read, read_text, json_load.
  destruct (fs w file) as [|data|]; try reflexivity.
  destruct (Utf8.decode data) as [text|]; [|reflexivity].
  unfold ret. destruct (Json.loads _) as [v|[]]; reflexivity.
Qed.









(** C9. There are files of valid JSON that is not an object on which
    [load_data] returns the decoded value as it is, which is no mapping
    at all, and writes no diagnostic: a file holding [[1, 2]] gives the
    list, and a file holding [7] gives the number. *)
Theorem C9_valid_json_of_another_shape_is_returned :
  load_data default_path (world_with (text_file "[1, 2]"))
  = (Ok (PyList [PyInt 1; PyInt 2]), world_with (text_file "[1, 2]"))
  /\ load_data default_path (world_with (text_file "7"))
     = (Ok (PyInt 7), world_with (text_file "7"))
  /\ (forall items, PyList [PyInt 1; PyInt 2] <> PyDict items)
  /\ (forall items, PyInt 7 <> PyDict items).
Proof.
  split; [vm_compute; reflexivity|].
  split; [vm_compute; reflexivity|].
  split; intros items; discriminate.
Qed.

(* ================================================================== *)
(** ** Further properties of the mutations and queries *)
(* ================================================================== *)







Lemma get_qty_store_same (d : inventory) k v : get_qty (store d k v) k = v.
Proof. apply get_qty_lookup, lookup_store_same. Qed.

Lemma get_qty_store_other (d : inventory) k k' v :
  k' <> k -> get_qty (store d k v) k' = get_qty d k'.
Proof.
  intros H. unfold get_qty, dict_get. rewrite lookup_store_other by assumption.
  reflexivity.
Qed.















(** X6. On an inventory with positive quantities, [get_qty] is positive
    exactly for the items in stock and 0 exactly for the others; it is
    never negative. *)
Theorem X6_get_qty_tells_presence (d : inventory) (k : str) :
  all_positive d ->
  (0 < get_qty d k <-> has_key d k)
  /\ (get_qty d k = 0 <-> ~ has_key d k).
Proof.
  intros Hpos. unfold get_qty, dict_get.
  destruct (lookup d k) as [q|] eqn:El.
  - pose proof (all_positive_lookup _ _ _ Hpos El) as Hq.
    pose proof (lookup_Some_has_key _ _ _ El) as Hk.
    split; split; intros; try assumption; try lia. contradiction.
  - apply lookup_None in El. split; split; intros; try lia; try assumption.
    contradiction.
Qed.

Lemma X6_get_qty_tells_presence_witness :
  (0 < get_qty demo_stock apple <-> has_key demo_stock apple)
  /\ (get_qty demo_stock apple = 0 <-> ~ has_key demo_stock apple).
Proof.
  apply (X6_get_qty_tells_presence demo_stock apple).
  exact demo_stock_positive.
Defined.

(** X7. Raising the threshold only adds to the low-stock list: the list
    for a smaller threshold is the list for a larger one with some
    names left out, in the same order. *)
Theorem X7_check_low_items_grows_with_threshold
        (d : inventory) (t1 t2 : Z) :
  t1 <= t2 -> subseq (check_low_items d t1) (check_low_items d t2).
Proof.
  intros Ht. induction d as [|[k q] d IH]; simpl; [constructor|].
  destruct (Z.ltb_spec q t1); destruct (Z.ltb_spec q t2);
    try lia; try (constructor; assumption). exact IH.
Qed.

Lemma X7_check_low_items_grows_with_threshold_witness :
  subseq (check_low_items demo_stock 5) (check_low_items demo_stock 10).
Proof.
  apply (X7_check_low_items_grows_with_threshold demo_stock 5 10). lia.
Defined.

(** X8. The low-stock list is empty exactly when every stored quantity
    reaches the threshold; in particular no item of an inventory with
    positive quantities is low for a threshold of 1 or less. *)
Theorem X8_check_low_items_empty (d : inventory) (t : Z) :
  (check_low_items d t = [] <-> Forall (fun kv => t <= snd kv) d)
  /\ (all_positive d -> t <= 1 -> check_low_items d t = []).
Proof.
  assert (Hiff : check_low_items d t = [] <-> Forall (fun kv => t <= snd kv) d).
  { induction d as [|[k q] d IH]; simpl.
    - split; [constructor | reflexivity].
    - destruct (Z.ltb_spec q t).
      + split; [discriminate|]. intros Hall. inversion Hall; subst.
        simpl in *. lia.
      + rewrite IH. split.
        * intros Hd. constructor; [simpl; lia | exact Hd].
        * intros Hall. inversion Hall; assumption. }
  split; [exact Hiff|].
  intros Hpos Ht. apply Hiff. unfold all_positive in Hpos.
  eapply Forall_impl; [|exact Hpos]. intros kv Hkv. simpl in Hkv. lia.
Qed.



Lemma lookup_taken_other (d : inventory) name n k :
  k <> name -> lookup (taken d name n) k = lookup d k.
Proof.
  intros Hk. unfold taken. destruct (lookup d name) as [q|]; [|reflexivity].
  destruct (q - n <=? 0).
  - apply lookup_erase_other. exact Hk.
  - apply lookup_store_other. exact Hk.
Qed.

Lemma get_qty_taken_other (d : inventory) name n k :
  k <> name -> get_qty (taken d name n) k = get_qty d k.
Proof.
  intros Hk. unfold get_qty, dict_get. rewrite lookup_taken_other by assumption.
  reflexivity.
Qed.

Lemma get_qty_taken_same (d : inventory) name n :
  wf_dict d -> all_positive d -> 0 < n ->
  get_qty (taken d name n) name = Z.max 0 (get_qty d name - n).
Proof.
  intros Hwf Hpos Hn. unfold taken.
  destruct (lookup d name) as [q|] eqn:El.
  - rewrite (get_qty_lookup _ _ _ El).
    destruct (Z.leb_spec (q - n) 0).
    + rewrite get_qty_absent; [lia|].
      apply lookup_None, lookup_erase_same. exact Hwf.
    + rewrite get_qty_store_same. lia.
  - unfold get_qty, dict_get. rewrite El. lia.
Qed.

Lemma good_keys_store (d : inventory) k v :
  good_keys d = true -> is_str k && no_surrogate_pair k = true ->
  good_keys (store d k v) = true.
Proof.
  intros Hd Hk. induction d as [|[k0 v0] d IH]; cbn [store].
  - cbn [good_keys forallb fst]. rewrite Hk. reflexivity.
  - cbn [good_keys forallb fst] in Hd. apply andb_true_iff in Hd.
    destruct Hd as [H0 Hd].
    destruct (str_eqb k0 k); cbn [good_keys forallb fst]; rewrite H0.
    + exact Hd.
    + apply IH. exact Hd.
Qed.

Lemma good_keys_erase (d : inventory) k :
  good_keys d = true -> good_keys (erase d k) = true.
Proof.
  intros Hd. induction d as [|[k0 v0] d IH]; cbn [erase]; [reflexivity|].
  cbn [good_keys forallb fst] in Hd. apply andb_true_iff in Hd.
  destruct Hd as [H0 Hd].
  destruct (str_eqb k0 k); [exact Hd|].
  cbn [good_keys forallb fst]. rewrite H0. apply IH. exact Hd.
Qed.

Lemma good_keys_lookup (d : inventory) k v :
  good_keys d = true -> lookup d k = Some v ->
  is_str k && no_surrogate_pair k = true.
Proof.
  intros Hd Hl. apply lookup_In in Hl. unfold good_keys in Hd.
  rewrite forallb_forall in Hd. exact (Hd _ Hl).
Qed.

Lemma good_keys_taken (d : inventory) name n :
  good_keys d = true -> good_keys (taken d name n) = true.
Proof.
  intros Hd. unfold taken. destruct (lookup d name) as [q|] eqn:El; [|exact Hd].
  destruct (q - n <=? 0).
  - apply good_keys_erase. exact Hd.
  - apply good_keys_store; [exact Hd|]. eapply good_keys_lookup; eassumption.
Qed.

(** What the transactions of [main] do to an inventory. *)
Lemma main_transactions_spec (d : inventory) (w : world) :
  wf_dict d -> all_positive d ->
  exists d' w',
    main_transactions d w
    = (Ok (d', Some [added_msg (clock w (ticks w)) (PyInt 10) (PyStr apple);
                     added_msg (clock w (S (ticks w))) (PyInt 15)
                               (PyStr banana)]),
       w')
    /\ get_qty d' apple = get_qty d apple + 7
    /\ get_qty d' banana = get_qty d banana + 15
    /\ get_qty d' (u "orange") = Z.max 0 (get_qty d (u "orange") - 1)
    /\ (forall k, k <> apple -> k <> banana -> k <> u "orange" ->
                  lookup d' k = lookup d k)
    /\ stderr w' = stderr w
                   ++ [invalid_qty_msg (PyInt (-2)) (PyStr banana);
                       invalid_item_msg (PyInt 123);
                       invalid_qty_msg (PyStr (u "two")) (PyStr banana)]
    /\ ticks w' = S (S (ticks w))
    /\ fs w' = fs w
    /\ wf_dict d' /\ all_positive d'
    /\ (good_keys d = true -> good_keys d' = true).
Proof.
  intros Hwf Hpos.
  assert (Hia : nonempty_str (PyStr apple))
    by exact (nonempty_str_intro 97%N (u "pple")).
  assert (Hib : nonempty_str (PyStr banana))
    by exact (nonempty_str_intro 98%N (u "anana")).
  assert (Hio : nonempty_str (PyStr (u "orange")))
    by exact (nonempty_str_intro 111%N (u "range")).
  assert (Hab : apple <> banana) by discriminate.
  assert (Hoa : u "orange" <> apple) by discriminate.
  assert (Hob : u "orange" <> banana) by discriminate.
  pose proof (all_positive_get_qty d apple Hpos) as Hga.
  pose proof (all_positive_get_qty d banana Hpos) as Hgb.
  unfold main_transactions, bind.
  change (u "apple") with apple. change (u "banana") with banana.
  rewrite (add_item_valid d _ _ _ w Hia (positive_int_int 10 ltac:(lia))).
  cbn [fst snd str_value int_value option_map app].
  set (d1 := store d apple (get_qty d apple + 10)).
  rewrite (add_item_valid d1 _ _ _ (ticked w) Hib
             (positive_int_int 15 ltac:(lia))).
  cbn [fst snd str_value int_value option_map app].
  set (d2 := store d1 banana (get_qty d1 banana + 15)).
  rewrite (add_item_bad_qty d2 _ _ _ _ Hib minus_two_not_positive).
  cbn [fst snd].
  rewrite (add_item_bad_item d2 (PyInt 123)) by (intros H; inversion H).
  cbn [fst snd].
  rewrite (remove_item_valid d2 _ _ _ Hia (positive_int_int 3 ltac:(lia))).
  cbn [str_value int_value].
  set (d3 := taken d2 apple 3).
  rewrite (remove_item_valid d3 _ _ _ Hio (positive_int_int 1 ltac:(lia))).
  cbn [str_value int_value].
  set (d4 := taken d3 (u "orange") 1).
  rewrite (remove_item_bad_qty d4 (PyStr banana) (PyStr (u "two")))
    by (assumption || (intros H; inversion H)).
  assert (Hwf1 : wf_dict d1) by (apply wf_store; exact Hwf).
  assert (Hpos1 : all_positive d1).
  { apply Forall_store; [exact Hpos | intros; simpl; lia]. }
  assert (Hgb1 : get_qty d1 banana = get_qty d banana).
  { apply get_qty_store_other. congruence. }
  assert (Hwf2 : wf_dict d2) by (apply wf_store; exact Hwf1).
  assert (Hpos2 : all_positive d2).
  { apply Forall_store; [exact Hpos1 | intros; simpl; lia]. }
  assert (Hga2 : get_qty d2 apple = get_qty d apple + 10).
  { unfold d2. rewrite get_qty_store_other by assumption.
    apply get_qty_store_same. }
  assert (Hwf3 : wf_dict d3) by (apply wf_taken; exact Hwf2).
  assert (Hpos3 : all_positive d3) by (apply all_positive_taken; exact Hpos2).
  do 2 eexists. split; [reflexivity|].
  split; [|split; [|split; [|split; [|split; [|split; [|split; [|split; [|split]]]]]]]].
  - unfold d4. rewrite get_qty_taken_other by congruence.
    unfold d3. rewrite get_qty_taken_same by (assumption || lia).
    rewrite Hga2. lia.
  - unfold d4. rewrite get_qty_taken_other by congruence.
    unfold d3. rewrite get_qty_taken_other by congruence.
    unfold d2. rewrite get_qty_store_same. lia.
  - unfold d4. rewrite get_qty_taken_same by (assumption || lia).
    unfold d3. rewrite get_qty_taken_other by assumption.
    unfold d2. rewrite get_qty_store_other by assumption.
    unfold d1. rewrite get_qty_store_other by assumption. reflexivity.
  - intros k Hka Hkb Hko. unfold d4, d3, d2, d1.
    rewrite !lookup_taken_other by assumption.
    rewrite !lookup_store_other by assumption. reflexivity.
  - cbn [stderr diagnosed ticked]. rewrite <- !app_assoc. reflexivity.
  - reflexivity.
  - reflexivity.
  - apply wf_taken. exact Hwf3.
  - apply all_positive_taken. exact Hpos3.
  - intros Hgood. unfold d4, d3, d2, d1.
    repeat (apply good_keys_taken || apply good_keys_store);
      try reflexivity. exact Hgood.
Qed.


(** X10. On an inventory with positive quantities the transactions of
    [main] return, add 7 to the apples and 15 to the bananas, take one
    orange if there is any, and leave every other item alone; they log
    the two additions, in that order and with the two readings of the
    clock, and print exactly three diagnostics, for the three calls with
    invalid arguments.  The removal of a missing orange prints
    nothing. *)
Theorem X10_main_transactions_effect (d : inventory) (w : world) :
  wf_dict d -> all_positive d ->
  exists d' w',
    main_transactions d w
    = (Ok (d', Some [added_msg (clock w (ticks w)) (PyInt 10) (PyStr apple);
                     added_msg (clock w (S (ticks w))) (PyInt 15)
                               (PyStr banana)]),
       w')
    /\ get_qty d' apple = get_qty d apple + 7
    /\ get_qty d' banana = get_qty d banana + 15
    /\ get_qty d' (u "orange") = Z.max 0 (get_qty d (u "orange") - 1)
    /\ (forall k, k <> apple -> k <> banana -> k <> u "orange" ->
                  lookup d' k = lookup d k)
    /\ stderr w' = stderr w
                   ++ [invalid_qty_msg (PyInt (-2)) (PyStr banana);
                       invalid_item_msg (PyInt 123);
                       invalid_qty_msg (PyStr (u "two")) (PyStr banana)]
    /\ ticks w' = S (S (ticks w))
    /\ fs w' = fs w
    /\ wf_dict d' /\ all_positive d'.
Proof.
  intros Hwf Hpos.
  destruct (main_transactions_spec d w Hwf Hpos)
    as (d' & w' & H1 & H2 & H3 & H4 & H5 & H6 & H7 & H8 & H9 & H10 & _).
  exists d', w'. repeat (split; [assumption|]). assumption.
Qed.

Lemma X10_main_transactions_effect_witness :
  exists d' w',
    main_transactions demo_stock idle_world
    = (Ok (d', Some [added_msg (clock idle_world (ticks idle_world))
                               (PyInt 10) (PyStr apple);
                     added_msg (clock idle_world (S (ticks idle_world)))
                               (PyInt 15) (PyStr banana)]),
       w')
    /\ get_qty d' apple = get_qty demo_stock apple + 7
    /\ get_qty d' banana = get_qty demo_stock banana + 15
    /\ get_qty d' (u "orange") = Z.max 0 (get_qty demo_stock (u "orange") - 1)
    /\ (forall k, k <> apple -> k <> banana -> k <> u "orange" ->
                  lookup d' k = lookup demo_stock k)
    /\ stderr w' = stderr idle_world
                   ++ [invalid_qty_msg (PyInt (-2)) (PyStr banana);
                       invalid_item_msg (PyInt 123);
                       invalid_qty_msg (PyStr (u "two")) (PyStr banana)]
    /\ ticks w' = S (S (ticks idle_world))
    /\ fs w' = fs idle_world
    /\ wf_dict d' /\ all_positive d'.
Proof.
  apply (X10_main_transactions_effect demo_stock idle_world).
  - exact demo_stock_wf.
  - exact demo_stock_positive.
Defined.

(* ================================================================== *)
(** ** Further properties of persistence and of the report *)
(* ================================================================== *)






(** X14. [load_data] only reads: whatever the path holds and however the
    call ends, no file changes and the clock is not read, and the error
    stream gains at most one line; when it gains one, the call returns
    the empty mapping. *)
Theorem X14_load_data_only_reads (file : str) (w : world) :
  exists r w',
    load_data file w = (r, w')
    /\ fs w' = fs w /\ ticks w' = ticks w /\ clock w' = clock w
    /\ (stderr w' = stderr w
        \/ (exists msg, stderr w' = stderr w ++ [msg]) /\ r = Ok (PyDict [])).
Proof.
  unfold load_data, try_except, bind, open_read, read_text, json_load.
  destruct (fs w file) as [|data|].
  - do 2 eexists. split; [reflexivity|]. repeat split.
    right. split; [eexists; reflexivity | reflexivity].
  - destruct (Utf8.decode data) as [text|].
    + unfold ret. destruct (Json.loads _) as [v|e] eqn:El.
      * do 2 eexists. split; [reflexivity|]. repeat split. left. reflexivity.
      * destruct (loads_cases (Utf8.universal_newlines text)) as [[v Hv]|Hr];
          [congruence|].
        rewrite El in Hr. injection Hr as ->.
        do 2 eexists. split; [reflexivity|]. repeat split.
        right. split; [eexists; reflexivity | reflexivity].
    + do 2 eexists. split; [reflexivity|]. repeat split. left. reflexivity.
  - do 2 eexists. split; [reflexivity|]. repeat split. left. reflexivity.
Qed.




Lemma universal_newlines_blank s :
  forallb Json.is_ws s = true ->
  forallb Json.is_ws (Utf8.universal_newlines s) = true.
Proof.
  assert (H : forall n s, (List.length s <= n)%nat ->
                          forallb Json.is_ws s = true ->
                          forallb Json.is_ws (Utf8.universal_newlines s) = true).
  { clear s. induction n as [|n IH]; intros s Hlen Hs.
    - destruct s; [reflexivity | simpl in Hlen; lia].
    - destruct s as [|c s]; [reflexivity|].
      cbn [forallb] in Hs. apply andb_true_iff in Hs. destruct Hs as [Hc Hs].
      cbn [List.length] in Hlen. cbn [Utf8.universal_newlines].
      destruct (c =? 13)%N.
      + destruct s as [|e s']; [reflexivity|].
        cbn [forallb] in Hs. apply andb_true_iff in Hs.
        destruct Hs as [He Hs']. cbn [List.length] in Hlen.
        destruct (e =? 10)%N; cbn [forallb].
        * rewrite (IH s') by (assumption || lia). reflexivity.
        * rewrite (IH (e :: s')); [reflexivity | cbn [List.length]; lia |].
          cbn [forallb]. rewrite He, Hs'. reflexivity.
      + cbn [forallb]. rewrite Hc. apply IH; [lia | exact Hs]. }
  apply (H (List.length s)). apply Nat.le_refl.
Qed.

Lemma skip_ws_blank s : forallb Json.is_ws s = true -> Json.skip_ws s = [].
Proof.
  induction s as [|c s IH]; [reflexivity|]. cbn [forallb Json.skip_ws].
  intros H. apply andb_true_iff in H. destruct H as [Hc Hs].
  rewrite Hc. apply IH. exact Hs.
Qed.

Lemma loads_blank s :
  forallb Json.is_ws s = true -> Json.loads s = Raise JSONDecodeError.
Proof.
  intros Hs. unfold Json.loads. destruct s as [|c s']; [reflexivity|].
  destruct (c =? 65279)%N; [reflexivity|].
  rewrite (skip_ws_blank _ Hs). reflexivity.
Qed.

(** X17. An empty file, or one that holds nothing but spaces, tabs and
    line breaks, is taken for a corrupted one: [load_data] returns the
    empty mapping with the decode diagnostic, and does not raise. *)
Theorem X17_load_data_on_blank_file
        (file : str) (w : world) (data : list Byte.byte) (text : str) :
  fs w file = RegularFile data ->
  Utf8.decode data = Some text ->
  forallb Json.is_ws text = true ->
  load_data file w = (Ok (PyDict []), diagnosed w (decode_error_msg file)).
Proof.
  intros Hf Hd Hb. apply (load_data_refused file w data text Hf Hd).
  apply loads_blank, universal_newlines_blank. exact Hb.
Qed.

Lemma X17_load_data_on_blank_file_witness :
  load_data default_path (world_with (RegularFile []))
  = (Ok (PyDict []),
     diagnosed (world_with (RegularFile [])) (decode_error_msg default_path)).
Proof.
  apply (X17_load_data_on_blank_file default_path _ [] []); reflexivity.
Defined.




